(** * xdp_lb.c: an XDP layer-3 load balancer, embedded and verified

    The development follows [src/ebpf/xdp_lb.c].  The packet is the byte
    range [ctx->data, ctx->data_end), modelled as a [list byte] whose
    length is [data_end - data]; every access to it is bounds-checked and
    yields [None] when it falls outside that range, so that an
    out-of-bounds access of the program shows up as a [None] result of
    [xdp_load_balancer].  The two BPF array maps are read-only inputs of
    the program.  [bpf_printk] is modelled by the list of trace records
    the program emits. *)

From Stdlib Require Import ZArith List Bool Lia.
From Stdlib Require Import Strings.Byte.
Import ListNotations.

Local Open Scope Z_scope.

(* ================================================================== *)
(** ** Machine integers and bytes *)

Definition u32 (z : Z) : Z := z mod 2 ^ 32.

Definition byte_to_Z (b : byte) : Z := Z.of_N (Byte.to_N b).

Definition byte_of_Z (z : Z) : byte :=
  match Byte.of_N (Z.to_N (z mod 256)) with
  | Some b => b
  | None => x00
  end.

(** Byte order of the BPF target ([bpfel] or [bpfeb]). *)
Inductive endianness : Set := LittleEndian | BigEndian.

(** Value of a byte string read least significant byte first. *)
Fixpoint uint_of_bytes (bs : list byte) : Z :=
  match bs with
  | [] => 0
  | b :: rest => byte_to_Z b + 256 * uint_of_bytes rest
  end.

(** The [n] low bytes of [z], least significant first. *)
Fixpoint bytes_of_uint (n : nat) (z : Z) : list byte :=
  match n with
  | O => []
  | S k => byte_of_Z z :: bytes_of_uint k (z / 256)
  end.

Definition decode (e : endianness) (bs : list byte) : Z :=
  match e with
  | LittleEndian => uint_of_bytes bs
  | BigEndian => uint_of_bytes (rev bs)
  end.

Definition encode (e : endianness) (n : nat) (z : Z) : list byte :=
  match e with
  | LittleEndian => bytes_of_uint n z
  | BigEndian => rev (bytes_of_uint n z)
  end.

(** [__constant_htons]: the identity on a big-endian target, a 16-bit
    byte swap on a little-endian one. *)
Definition htons (e : endianness) (x : Z) : Z :=
  match e with
  | BigEndian => x
  | LittleEndian =>
      Z.lor (Z.shiftl (Z.land x 0x00ff) 8) (Z.shiftr (Z.land x 0xff00) 8)
  end.

(* ================================================================== *)
(** ** Packet memory *)

Definition packet := list byte.

Definition in_bounds (pkt : packet) (off : Z) (n : nat) : bool :=
  (0 <=? off) && (off + Z.of_nat n <=? Z.of_nat (length pkt)).

Definition read_bytes (pkt : packet) (off : Z) (n : nat) : option (list byte) :=
  if in_bounds pkt off n
  then Some (firstn n (skipn (Z.to_nat off) pkt))
  else None.

Definition write_bytes (pkt : packet) (off : Z) (bs : list byte) : option packet :=
  if in_bounds pkt off (length bs)
  then Some (firstn (Z.to_nat off) pkt ++ bs
             ++ skipn (Z.to_nat off + length bs) pkt)
  else None.

Definition load16 (e : endianness) (pkt : packet) (off : Z) : option Z :=
  option_map (decode e) (read_bytes pkt off 2).

Definition load32 (e : endianness) (pkt : packet) (off : Z) : option Z :=
  option_map (decode e) (read_bytes pkt off 4).

Definition store32 (e : endianness) (pkt : packet) (off : Z) (v : Z) : option packet :=
  write_bytes pkt off (encode e 4 v).

(** [__builtin_memcpy (pkt + off, src, n)]. *)
Definition memcpy (pkt : packet) (off : Z) (src : list byte) (n : nat) : option packet :=
  if (n <=? length src)%nat then write_bytes pkt off (firstn n src) else None.

(* ================================================================== *)
(** ** Header layout

    [struct ethhdr] and [struct iphdr] come from <linux/if_ether.h> and
    <linux/ip.h>; the program uses their sizes and the offsets of
    [h_dest], [h_proto], [saddr] and [daddr]. *)

Definition ETH_P_IP : Z := 0x0800.
Definition ETH_ALEN : nat := 6.
Definition sizeof_ethhdr : Z := 14.
Definition sizeof_iphdr : Z := 20.

Definition off_h_dest : Z := 0.
Definition off_h_proto : Z := 12.
Definition off_check : Z := sizeof_ethhdr + 10.
Definition off_saddr : Z := sizeof_ethhdr + 12.
Definition off_daddr : Z := sizeof_ethhdr + 16.

(* ================================================================== *)
(** ** Maps *)

Definition MAX_BACKENDS : Z := 8.

Record ether_addr : Set := mkEther
  { o0 : byte; o1 : byte; o2 : byte; o3 : byte; o4 : byte; o5 : byte }.

Definition ether_bytes (a : ether_addr) : list byte :=
  [o0 a; o1 a; o2 a; o3 a; o4 a; o5 a].

(** [struct backend]. *)
Record backend : Set := mkBackend
  { ip : Z;            (* __u32, network byte order as stored *)
    mac : ether_addr   (* __u8 mac[6] *) }.

(** The contents of the two maps.  [backends] has [max_entries =
    MAX_BACKENDS], [backend_count] has [max_entries = 1]. *)
Record maps : Type := mkMaps
  { backends : list backend;
    backend_count : list Z }.

(** [bpf_map_lookup_elem] on a [BPF_MAP_TYPE_ARRAY]: the kernel returns
    NULL when the key is not below [max_entries], and the slot
    otherwise.  A slot list shorter than [max_entries] stands for a map
    with absent slots, whose lookup is NULL as well. *)
Definition bpf_map_lookup_elem {V : Type} (max_entries : Z) (slots : list V)
    (key : Z) : option V :=
  if (0 <=? key) && (key <? max_entries)
  then nth_error slots (Z.to_nat key)
  else None.

Definition lookup_backend (m : maps) (idx : Z) : option backend :=
  bpf_map_lookup_elem MAX_BACKENDS (backends m) idx.

Definition lookup_count (m : maps) : option Z :=
  bpf_map_lookup_elem 1 (backend_count m) 0.

(** The map as the kernel allocates it: every slot present, every value
    a [__u32]. *)
Definition u32_range (z : Z) : Prop := 0 <= z < 2 ^ 32.

Definition maps_allocated (m : maps) : Prop :=
  Z.of_nat (length (backends m)) = MAX_BACKENDS /\
  length (backend_count m) = 1%nat.

Definition maps_typed (m : maps) : Prop :=
  Forall (fun b => u32_range (ip b)) (backends m) /\
  Forall u32_range (backend_count m).

(* ================================================================== *)
(** ** Selection hash *)

Definition hash (a : Z) : Z :=
  let a := Z.lxor a (Z.shiftr a 16) in
  let a := u32 (a * 0x7feb352d) in
  let a := Z.lxor a (Z.shiftr a 15) in
  let a := u32 (a * 0x846ca68b) in
  let a := Z.lxor a (Z.shiftr a 16) in
  a.

(* ================================================================== *)
(** ** The XDP program *)

Inductive xdp_action : Set :=
  XDP_ABORTED | XDP_DROP | XDP_PASS | XDP_TX | XDP_REDIRECT.

(** One record per [bpf_printk] call of the program. *)
Inductive trace_event : Set :=
| TraceIPv4 (src dst : Z)
| TraceNoBackends
| TraceLookupFailed (idx : Z)
| TraceForwarding (idx : Z).

Record outcome : Type := mkOutcome
  { action : xdp_action;
    data : packet;
    trace : list trace_event }.

Definition bind {A B : Type} (x : option A) (f : A -> option B) : option B :=
  match x with
  | Some a => f a
  | None => None
  end.

Notation "x <- c ;; k" := (bind c (fun x => k))
  (at level 61, c at next level, right associativity).

Definition xdp_load_balancer (e : endianness) (m : maps) (pkt : packet)
  : option outcome :=
  let data_end := Z.of_nat (length pkt) in
  (* Ethernet header validation *)
  if sizeof_ethhdr >? data_end then Some (mkOutcome XDP_PASS pkt [])
  else
    h_proto <- load16 e pkt off_h_proto ;;
    if negb (h_proto =? htons e ETH_P_IP) then Some (mkOutcome XDP_PASS pkt [])
    else
      (* IPv4 header parsing *)
      if sizeof_ethhdr + sizeof_iphdr >? data_end
      then Some (mkOutcome XDP_PASS pkt [])
      else
        saddr <- load32 e pkt off_saddr ;;
        daddr <- load32 e pkt off_daddr ;;
        let t1 := [TraceIPv4 saddr daddr] in
        (* retrieve active backend count *)
        match lookup_count m with
        | None => Some (mkOutcome XDP_PASS pkt (t1 ++ [TraceNoBackends]))
        | Some count =>
            if count =? 0
            then Some (mkOutcome XDP_PASS pkt (t1 ++ [TraceNoBackends]))
            else
              (* select backend *)
              let idx := hash saddr mod count in
              match lookup_backend m idx with
              | None =>
                  Some (mkOutcome XDP_PASS pkt (t1 ++ [TraceLookupFailed idx]))
              | Some b =>
                  (* rewrite destination IP and MAC *)
                  pkt1 <- store32 e pkt off_daddr (ip b) ;;
                  pkt2 <- memcpy pkt1 off_h_dest (ether_bytes (mac b)) ETH_ALEN ;;
                  Some (mkOutcome XDP_TX pkt2 (t1 ++ [TraceForwarding idx]))
              end
        end.

(** Inverse of [hash], one step undone at a time, last step first.
    [0x43021123] and [0x1d69e2a5] are the inverses of the two
    multipliers modulo [2 ^ 32]. *)
Definition hash_inv (a : Z) : Z :=
  let a := Z.lxor a (Z.shiftr a 16) in
  let a := u32 (a * 0x43021123) in
  let a := Z.lxor (Z.lxor a (Z.shiftr a 15)) (Z.shiftr a 30) in
  let a := u32 (a * 0x1d69e2a5) in
  let a := Z.lxor a (Z.shiftr a 16) in
  a.

(* ================================================================== *)
(** ** Control plane *)

Inductive replace_error : Set := CapacityExceeded | InvalidEntry.

(** Modelled from the spec: [BackendTable.replace], the control-plane
    operation that installs a backend table.  The source file only
    declares the two maps and says they are populated from user space;
    the operation itself is not part of it.  Following the
    specification's words: the call fails with [CapacityExceeded] when
    the sequence has more than 8 entries, and on success the entries
    occupy the indices below the new active count, which is the length
    of the sequence; slots at or above it keep their stale contents.
    The table after the call is the second component of the result. *)
Definition replace (entries : list backend) (m : maps)
  : (replace_error + unit) * maps :=
  if MAX_BACKENDS <? Z.of_nat (length entries)
  then (inl CapacityExceeded, m)
  else (inr tt,
        {| backends := entries ++ skipn (length entries) (backends m);
           backend_count := [Z.of_nat (length entries)] |}).

(* ================================================================== *)
(** ** Views of a packet used in the statements *)

(** The Ethernet protocol field as it is on the wire (network order),
    when the buffer holds it. *)
Definition eth_proto (pkt : packet) : option Z :=
  option_map (decode BigEndian) (read_bytes pkt off_h_proto 2).

(** A buffer that passes the three checks of the classifier. *)
Definition ipv4_frame (pkt : packet) : Prop :=
  sizeof_ethhdr + sizeof_iphdr <= Z.of_nat (length pkt) /\
  eth_proto pkt = Some ETH_P_IP.

(** Offsets the rewrite is allowed to touch: [h_dest] and [daddr]. *)
Definition rewritten (i : nat) : Prop :=
  (i < 6)%nat \/ (30 <= i < 34)%nat.

(* ================================================================== *)
(** ** The runs of the program

    The four ways [xdp_load_balancer] can end, one constructor per
    [return] path of the source (the three classifier rejections share
    the first).  [xdp_load_balancer_run] below shows that every call ends
    in one of them. *)

Inductive run (e : endianness) (m : maps) (pkt : packet)
  : option outcome -> Prop :=
| run_reject :
    ~ ipv4_frame pkt ->
    run e m pkt (Some (mkOutcome XDP_PASS pkt []))
| run_no_backend s d :
    ipv4_frame pkt ->
    load32 e pkt off_saddr = Some s ->
    load32 e pkt off_daddr = Some d ->
    lookup_count m = None \/ lookup_count m = Some 0 ->
    run e m pkt
      (Some (mkOutcome XDP_PASS pkt [TraceIPv4 s d; TraceNoBackends]))
| run_lookup_failed s d c :
    ipv4_frame pkt ->
    load32 e pkt off_saddr = Some s ->
    load32 e pkt off_daddr = Some d ->
    lookup_count m = Some c -> c <> 0 ->
    lookup_backend m (hash s mod c) = None ->
    run e m pkt
      (Some (mkOutcome XDP_PASS pkt
               [TraceIPv4 s d; TraceLookupFailed (hash s mod c)]))
| run_forward s d c b pkt' :
    ipv4_frame pkt ->
    load32 e pkt off_saddr = Some s ->
    load32 e pkt off_daddr = Some d ->
    lookup_count m = Some c -> c <> 0 ->
    lookup_backend m (hash s mod c) = Some b ->
    length pkt' = length pkt ->
    (forall i : nat, ~ rewritten i -> nth_error pkt' i = nth_error pkt i) ->
    read_bytes pkt' off_daddr 4 = Some (encode e 4 (ip b)) ->
    read_bytes pkt' off_h_dest 6 = Some (ether_bytes (mac b)) ->
    run e m pkt
      (Some (mkOutcome XDP_TX pkt'
               [TraceIPv4 s d; TraceForwarding (hash s mod c)])).

(** The backend index a run selected, as the program reports it in its
    "Forwarding to backend index" or "Backend lookup failed idx" record. *)
Fixpoint traced_index (t : list trace_event) : option Z :=
  match t with
  | [] => None
  | TraceForwarding idx :: _ => Some idx
  | TraceLookupFailed idx :: _ => Some idx
  | _ :: rest => traced_index rest
  end.

Definition selected_index (r : option outcome) : option Z :=
  match r with
  | Some o => traced_index (trace o)
  | None => None
  end.

(* ================================================================== *)
(** ** Sample tables and frames

    The table of the specification's example: 10.0.0.1 at
    AA:BB:CC:DD:EE:01 and 10.0.0.2 at AA:BB:CC:DD:EE:02, the addresses
    held as a little-endian target holds a network-order word; the six
    remaining slots are zero, as the kernel allocates them. *)

Definition zero_backend : backend :=
  mkBackend 0 (mkEther x00 x00 x00 x00 x00 x00).

Definition demo_backend1 : backend :=
  mkBackend 0x0100000a (mkEther xaa xbb xcc xdd xee x01).

Definition demo_backend2 : backend :=
  mkBackend 0x0200000a (mkEther xaa xbb xcc xdd xee x02).

Definition demo_slots : list backend :=
  [demo_backend1; demo_backend2; zero_backend; zero_backend;
   zero_backend; zero_backend; zero_backend; zero_backend].

Definition demo_maps : maps := mkMaps demo_slots [2].

Definition empty_maps : maps := mkMaps (repeat zero_backend 8) [0].

(** A count above the capacity of the backend map. *)
Definition overcount_maps : maps := mkMaps demo_slots [4000000000].

(** A 35-byte frame: Ethernet header with protocol 0x0800, an IPv4
    header from 192.168.1.5 to 10.0.0.99, one byte of payload. *)
Definition demo_packet : packet :=
  [x11; x12; x13; x14; x15; x16;  x21; x22; x23; x24; x25; x26;  x08; x00;
   x45; x00; x00; x15; x00; x00; x00; x00; x40; x06; xbe; xef;
   xc0; xa8; x01; x05;  x0a; x00; x00; x63;
   x99].

(** The same frame with the ARP protocol number 0x0806. *)
Definition arp_packet : packet :=
  firstn 12 demo_packet ++ [x08; x06] ++ skipn 14 demo_packet.

(** A minimal IPv4 frame whose source-address field holds the word [s]
    as the target [e] stores it; every other field but the protocol
    number is zero. *)
Definition frame_with_source (e : endianness) (s : Z) : packet :=
  repeat x00 12 ++ [x08; x00] ++ repeat x00 12 ++ encode e 4 s
  ++ repeat x00 4.

(** [demo_packet] as the program forwards it to the second backend on a
    little-endian target. *)
Definition demo_forwarded : packet :=
  ether_bytes (mac demo_backend2) ++ firstn 24 (skipn 6 demo_packet)
  ++ [x0a; x00; x00; x02] ++ skipn 34 demo_packet.

(* ================================================================== *)
(** * Bytes and encodings *)

Lemma byte_to_Z_range (b : byte) : 0 <= byte_to_Z b < 256.
Proof.
  unfold byte_to_Z. pose proof (Byte.to_N_bounded b). lia.
Qed.

Lemma byte_to_of_Z (z : Z) : byte_to_Z (byte_of_Z z) = z mod 256.
Proof.
  unfold byte_to_Z, byte_of_Z.
  assert (Hr : 0 <= z mod 256 < 256) by (apply Z.mod_pos_bound; lia).
  destruct (Byte.of_N (Z.to_N (z mod 256))) as [b|] eqn:E.
  - apply Byte.to_of_N in E. rewrite E. lia.
  - apply Byte.of_N_None_iff in E. lia.
Qed.

Lemma uint_of_bytes_range (bs : list byte) :
  0 <= uint_of_bytes bs < 256 ^ Z.of_nat (length bs).
Proof.
  induction bs as [|b rest IH].
  - simpl. lia.
  - cbn [uint_of_bytes length]. rewrite Nat2Z.inj_succ, Z.pow_succ_r by lia.
    pose proof (byte_to_Z_range b). lia.
Qed.

Lemma uint_of_bytes_of_uint (n : nat) (z : Z) :
  uint_of_bytes (bytes_of_uint n z) = z mod 256 ^ Z.of_nat n.
Proof.
  revert z. induction n as [|k IH]; intros z.
  - simpl. now rewrite Z.mod_1_r.
  - cbn [bytes_of_uint uint_of_bytes].
    rewrite IH, byte_to_of_Z, Nat2Z.inj_succ, Z.pow_succ_r by lia.
    rewrite (Z.rem_mul_r z 256 (256 ^ Z.of_nat k)) by lia. reflexivity.
Qed.

Lemma length_bytes_of_uint (n : nat) (z : Z) : length (bytes_of_uint n z) = n.
Proof.
  revert z. induction n as [|k IH]; intros z; simpl; [reflexivity | now rewrite IH].
Qed.

Lemma length_encode (e : endianness) (n : nat) (z : Z) : length (encode e n z) = n.
Proof.
  destruct e; simpl; [| rewrite length_rev]; apply length_bytes_of_uint.
Qed.

Lemma decode_encode (e : endianness) (n : nat) (z : Z) :
  decode e (encode e n z) = z mod 256 ^ Z.of_nat n.
Proof.
  destruct e; simpl; [| rewrite rev_involutive]; apply uint_of_bytes_of_uint.
Qed.

Lemma decode_encode_u32 (e : endianness) (z : Z) :
  u32_range z -> decode e (encode e 4 z) = z.
Proof.
  intros Hz. rewrite decode_encode. apply Z.mod_small. exact Hz.
Qed.

Lemma decode_range (e : endianness) (bs : list byte) :
  0 <= decode e bs < 256 ^ Z.of_nat (length bs).
Proof.
  destruct e; simpl.
  - apply uint_of_bytes_range.
  - rewrite <- length_rev. apply uint_of_bytes_range.
Qed.

(** The comparison [eth->h_proto != htons(ETH_P_IP)] does not depend on
    the byte order of the target: it tests the wire value. *)
Lemma h_proto_test (e : endianness) (bs : list byte) :
  length bs = 2%nat ->
  (decode e bs =? htons e ETH_P_IP) = (decode BigEndian bs =? ETH_P_IP).
Proof.
  intros Hlen.
  destruct bs as [|a [|b [|c rest]]]; try discriminate.
  pose proof (byte_to_Z_range a). pose proof (byte_to_Z_range b).
  destruct e; [| reflexivity].
  change (htons LittleEndian ETH_P_IP) with 8.
  unfold ETH_P_IP. cbn [decode rev app uint_of_bytes].
  destruct (Z.eqb_spec (byte_to_Z a + 256 * (byte_to_Z b + 256 * 0)) 8);
    destruct (Z.eqb_spec (byte_to_Z b + 256 * (byte_to_Z a + 256 * 0)) 2048);
    try reflexivity; lia.
Qed.

(* ================================================================== *)
(** * Packet memory *)

Lemma in_bounds_spec (pkt : packet) (off : Z) (n : nat) :
  in_bounds pkt off n = true <->
  0 <= off /\ off + Z.of_nat n <= Z.of_nat (length pkt).
Proof.
  unfold in_bounds. rewrite andb_true_iff, Z.leb_le, Z.leb_le. reflexivity.
Qed.

Lemma read_bytes_some (pkt : packet) (off : Z) (n : nat) :
  0 <= off -> off + Z.of_nat n <= Z.of_nat (length pkt) ->
  exists bs, read_bytes pkt off n = Some bs /\ length bs = n.
Proof.
  intros H0 H1. unfold read_bytes.
  replace (in_bounds pkt off n) with true
    by (symmetry; apply in_bounds_spec; lia).
  eexists. split; [reflexivity |].
  rewrite length_firstn, length_skipn. lia.
Qed.

Lemma read_bytes_length (pkt : packet) (off : Z) (n : nat) (bs : list byte) :
  read_bytes pkt off n = Some bs -> length bs = n.
Proof.
  unfold read_bytes. destruct (in_bounds pkt off n) eqn:E; [| discriminate].
  apply in_bounds_spec in E. intros [= <-].
  rewrite length_firstn, length_skipn. lia.
Qed.

Lemma read_bytes_none (pkt : packet) (off : Z) (n : nat) :
  read_bytes pkt off n = None ->
  off < 0 \/ Z.of_nat (length pkt) < off + Z.of_nat n.
Proof.
  unfold read_bytes. destruct (in_bounds pkt off n) eqn:E; [discriminate |].
  intros _. unfold in_bounds in E. apply andb_false_iff in E.
  rewrite !Z.leb_gt in E. lia.
Qed.

Lemma write_bytes_some (pkt : packet) (off : Z) (bs : list byte) :
  0 <= off -> off + Z.of_nat (length bs) <= Z.of_nat (length pkt) ->
  write_bytes pkt off bs
  = Some (firstn (Z.to_nat off) pkt ++ bs
          ++ skipn (Z.to_nat off + length bs) pkt).
Proof.
  intros H0 H1. unfold write_bytes.
  replace (in_bounds pkt off (length bs)) with true
    by (symmetry; apply in_bounds_spec; lia).
  reflexivity.
Qed.

Section WriteBytes.
Variables (pkt pkt' : packet) (off : Z) (bs : list byte).
Hypothesis Hw : write_bytes pkt off bs = Some pkt'.

Lemma write_bytes_bounds :
  0 <= off /\ off + Z.of_nat (length bs) <= Z.of_nat (length pkt).
Proof.
  unfold write_bytes in Hw.
  destruct (in_bounds pkt off (length bs)) eqn:E; [| discriminate].
  now apply in_bounds_spec.
Qed.

Lemma write_bytes_eq :
  pkt' = firstn (Z.to_nat off) pkt ++ bs
         ++ skipn (Z.to_nat off + length bs) pkt.
Proof.
  destruct write_bytes_bounds as [H0 H1].
  rewrite (write_bytes_some pkt off bs H0 H1) in Hw. congruence.
Qed.

Lemma write_bytes_length : length pkt' = length pkt.
Proof.
  destruct write_bytes_bounds as [H0 H1]. rewrite write_bytes_eq.
  rewrite !length_app, length_firstn, length_skipn. lia.
Qed.

(** Bytes outside the written range keep their value. *)
Lemma write_bytes_frame (i : nat) :
  (i < Z.to_nat off \/ Z.to_nat off + length bs <= i)%nat ->
  nth_error pkt' i = nth_error pkt i.
Proof.
  destruct write_bytes_bounds as [H0 H1]. intros Hi. rewrite write_bytes_eq.
  assert (Hf : length (firstn (Z.to_nat off) pkt) = Z.to_nat off)
    by (rewrite length_firstn; lia).
  destruct Hi as [Hi | Hi].
  - rewrite nth_error_app1 by lia.
    rewrite nth_error_firstn.
    destruct (Nat.ltb_spec i (Z.to_nat off)); [reflexivity | lia].
  - rewrite nth_error_app2 by lia. rewrite Hf.
    rewrite nth_error_app2 by lia.
    rewrite nth_error_skipn. f_equal. lia.
Qed.

(** Bytes inside the written range hold the written bytes. *)
Lemma write_bytes_inside (i : nat) :
  (i < length bs)%nat ->
  nth_error pkt' (Z.to_nat off + i) = nth_error bs i.
Proof.
  destruct write_bytes_bounds as [H0 H1]. intros Hi. rewrite write_bytes_eq.
  assert (Hf : length (firstn (Z.to_nat off) pkt) = Z.to_nat off)
    by (rewrite length_firstn; lia).
  rewrite nth_error_app2 by lia. rewrite Hf.
  rewrite nth_error_app1 by lia. f_equal. lia.
Qed.
End WriteBytes.

(** A read is determined by the bytes of its range. *)
Lemma read_bytes_ext (p q : packet) (off : Z) (n : nat) :
  length p = length q ->
  (forall i : nat, (i < n)%nat ->
     nth_error p (Z.to_nat off + i) = nth_error q (Z.to_nat off + i)) ->
  read_bytes p off n = read_bytes q off n.
Proof.
  intros Hlen Hnth. unfold read_bytes, in_bounds. rewrite Hlen.
  destruct ((0 <=? off) && (off + Z.of_nat n <=? Z.of_nat (length q)));
    [| reflexivity].
  f_equal. apply nth_error_ext. intros i.
  rewrite !nth_error_firstn.
  destruct (Nat.ltb_spec i n); [| reflexivity].
  rewrite !nth_error_skipn. now apply Hnth.
Qed.

Lemma read_bytes_is (p : packet) (off : Z) (bs : list byte) :
  0 <= off -> off + Z.of_nat (length bs) <= Z.of_nat (length p) ->
  (forall i : nat, (i < length bs)%nat ->
     nth_error p (Z.to_nat off + i) = nth_error bs i) ->
  read_bytes p off (length bs) = Some bs.
Proof.
  intros H0 H1 Hnth. unfold read_bytes.
  replace (in_bounds p off (length bs)) with true
    by (symmetry; apply in_bounds_spec; lia).
  f_equal. apply nth_error_ext. intros i.
  rewrite nth_error_firstn.
  destruct (Nat.ltb_spec i (length bs)) as [Hi | Hi].
  - rewrite nth_error_skipn. now apply Hnth.
  - symmetry. apply nth_error_None. lia.
Qed.

(* ================================================================== *)
(** * The rewrite step *)

Ltac unfold_layout :=
  unfold off_h_dest, off_h_proto, off_check, off_saddr, off_daddr,
    sizeof_ethhdr, sizeof_iphdr, ETH_ALEN in *.

Lemma rewrite_step (e : endianness) (pkt : packet) (b : backend) :
  sizeof_ethhdr + sizeof_iphdr <= Z.of_nat (length pkt) ->
  exists pkt1 pkt2,
    store32 e pkt off_daddr (ip b) = Some pkt1 /\
    memcpy pkt1 off_h_dest (ether_bytes (mac b)) ETH_ALEN = Some pkt2 /\
    length pkt2 = length pkt /\
    (forall i : nat, ~ rewritten i -> nth_error pkt2 i = nth_error pkt i) /\
    read_bytes pkt2 off_daddr 4 = Some (encode e 4 (ip b)) /\
    read_bytes pkt2 off_h_dest 6 = Some (ether_bytes (mac b)).
Proof.
  intros Hlen. unfold_layout.
  pose proof (length_encode e 4 (ip b)) as Henc.
  destruct (write_bytes pkt (14 + 16) (encode e 4 (ip b))) as [pkt1|] eqn:E1.
  2:{ rewrite write_bytes_some in E1 by (rewrite ?Henc; lia). discriminate. }
  pose proof (write_bytes_length _ _ _ _ E1) as L1.
  destruct (write_bytes pkt1 0 (ether_bytes (mac b))) as [pkt2|] eqn:E2.
  2:{ rewrite write_bytes_some in E2 by (simpl; lia). discriminate. }
  pose proof (write_bytes_length _ _ _ _ E2) as L2.
  exists pkt1, pkt2. unfold store32, memcpy. simpl firstn. simpl Nat.leb.
  repeat split.
  - exact E1.
  - exact E2.
  - congruence.
  - intros i Hi. unfold rewritten in Hi.
    rewrite (write_bytes_frame _ _ _ _ E2) by (simpl; lia).
    apply (write_bytes_frame _ _ _ _ E1). rewrite Henc. lia.
  - rewrite <- Henc at 1. apply read_bytes_is.
    + lia.
    + rewrite Henc. lia.
    + intros i Hi. rewrite Henc in Hi.
      rewrite (write_bytes_frame _ _ _ _ E2) by (simpl; lia).
      apply (write_bytes_inside _ _ _ _ E1). lia.
  - change 6%nat with (length (ether_bytes (mac b))). apply read_bytes_is.
    + lia.
    + simpl length. lia.
    + intros i Hi. apply (write_bytes_inside _ _ _ _ E2 i Hi).
Qed.

(* ================================================================== *)
(** * Every call ends in one of the four runs *)

Lemma load32_some (e : endianness) (pkt : packet) (off : Z) :
  0 <= off -> off + 4 <= Z.of_nat (length pkt) ->
  exists v, load32 e pkt off = Some v /\ u32_range v.
Proof.
  intros H0 H1.
  destruct (read_bytes_some pkt off 4 H0) as (bs & Hr & Hl); [lia |].
  exists (decode e bs). unfold load32. rewrite Hr. split; [reflexivity |].
  pose proof (decode_range e bs) as R. rewrite Hl in R. exact R.
Qed.

Lemma load32_range (e : endianness) (pkt : packet) (off v : Z) :
  load32 e pkt off = Some v -> u32_range v.
Proof.
  unfold load32. destruct (read_bytes pkt off 4) as [bs|] eqn:E; [| discriminate].
  intros [= <-]. pose proof (decode_range e bs) as R.
  rewrite (read_bytes_length _ _ _ _ E) in R. exact R.
Qed.

Lemma xdp_load_balancer_run (e : endianness) (m : maps) (pkt : packet) :
  run e m pkt (xdp_load_balancer e m pkt).
Proof.
  unfold xdp_load_balancer.
  rewrite !Z.gtb_ltb.
  destruct (Z.ltb_spec (Z.of_nat (length pkt)) sizeof_ethhdr) as [Hs | Hs].
  { apply run_reject. intros [Hl _]. unfold_layout. lia. }
  destruct (read_bytes_some pkt off_h_proto 2) as (bs & Hr & Hl);
    [unfold_layout; lia | unfold_layout; lia |].
  unfold load16. rewrite Hr. cbn [option_map bind].
  rewrite (h_proto_test e bs Hl).
  destruct (Z.eqb_spec (decode BigEndian bs) ETH_P_IP) as [Hp | Hp]; cbn [negb].
  2:{ apply run_reject. intros [_ Hp']. unfold eth_proto in Hp'.
      rewrite Hr in Hp'. cbn [option_map] in Hp'. congruence. }
  destruct (Z.ltb_spec (Z.of_nat (length pkt)) (sizeof_ethhdr + sizeof_iphdr))
    as [Hi | Hi].
  { apply run_reject. intros [Hl' _]. lia. }
  assert (Hframe : ipv4_frame pkt).
  { split; [exact Hi |]. unfold eth_proto. rewrite Hr. cbn [option_map]. now rewrite Hp. }
  destruct (load32_some e pkt off_saddr) as (s & Es & _);
    [unfold_layout; lia | unfold_layout; lia |].
  destruct (load32_some e pkt off_daddr) as (d & Ed & _);
    [unfold_layout; lia | unfold_layout; lia |].
  rewrite Es, Ed. cbn [bind app].
  destruct (lookup_count m) as [c|] eqn:Ec.
  2:{ eapply run_no_backend; eauto. }
  destruct (Z.eqb_spec c 0) as [Hc | Hc].
  { subst c. eapply run_no_backend; eauto. }
  destruct (lookup_backend m (hash s mod c)) as [b|] eqn:Eb.
  2:{ eapply run_lookup_failed; eauto. }
  destruct (rewrite_step e pkt b Hi)
    as (pkt1 & pkt2 & E1 & E2 & L & F & Rd & Rm).
  rewrite E1. cbn [bind]. rewrite E2. cbn [bind].
  eapply run_forward; eauto.
Qed.

(* ================================================================== *)
(** * The selection hash is a permutation of the 32-bit words *)

Lemma u32_bits_high (a n : Z) :
  u32_range a -> 32 <= n -> Z.testbit a n = false.
Proof.
  intros Ha Hn. rewrite <- (Z.mod_small a (2 ^ 32)) by exact Ha.
  apply Z.mod_pow2_bits_high. lia.
Qed.

Lemma u32_range_of_bits (x : Z) :
  0 <= x -> (forall n, 32 <= n -> Z.testbit x n = false) -> u32_range x.
Proof.
  intros Hx Hb.
  assert (E : x = x mod 2 ^ 32).
  { apply Z.bits_inj'. intros n Hn.
    destruct (Z.lt_ge_cases n 32) as [Hlt | Hge].
    - now rewrite Z.mod_pow2_bits_low.
    - rewrite Z.mod_pow2_bits_high by lia. now apply Hb. }
  rewrite E. apply Z.mod_pos_bound. lia.
Qed.

Lemma u32_is_u32 (z : Z) : u32_range (u32 z).
Proof. apply Z.mod_pos_bound. lia. Qed.

Lemma xorshift_range (a k : Z) :
  u32_range a -> 0 <= k -> u32_range (Z.lxor a (Z.shiftr a k)).
Proof.
  intros Ha Hk. apply u32_range_of_bits.
  - apply Z.lxor_nonneg. rewrite Z.shiftr_nonneg. tauto.
  - intros n Hn. rewrite Z.lxor_spec, Z.shiftr_spec by lia.
    rewrite !(u32_bits_high a) by (assumption || lia). reflexivity.
Qed.

(** [a ^= a >> 16] is its own inverse on 32-bit words. *)
Lemma xorshift16_involutive (a : Z) :
  u32_range a ->
  let b := Z.lxor a (Z.shiftr a 16) in
  Z.lxor b (Z.shiftr b 16) = a.
Proof.
  intros Ha b. subst b. apply Z.bits_inj'. intros n Hn.
  rewrite !Z.lxor_spec, !Z.shiftr_spec, Z.lxor_spec, Z.shiftr_spec by lia.
  rewrite (u32_bits_high a (n + 16 + 16)) by (assumption || lia).
  destruct (Z.testbit a n), (Z.testbit a (n + 16)); reflexivity.
Qed.

(** [a ^= a >> 15] is undone by [b ^ (b >> 15) ^ (b >> 30)]. *)
Lemma xorshift15_undo (a : Z) :
  u32_range a ->
  let b := Z.lxor a (Z.shiftr a 15) in
  Z.lxor (Z.lxor b (Z.shiftr b 15)) (Z.shiftr b 30) = a.
Proof.
  intros Ha b. subst b. apply Z.bits_inj'. intros n Hn.
  rewrite !Z.lxor_spec, !Z.shiftr_spec, !Z.lxor_spec, !Z.shiftr_spec by lia.
  rewrite (u32_bits_high a (n + 30 + 15)) by (assumption || lia).
  replace (n + 15 + 15) with (n + 30) by lia.
  destruct (Z.testbit a n), (Z.testbit a (n + 15)), (Z.testbit a (n + 30));
    reflexivity.
Qed.

Lemma xorshift15_redo (b : Z) :
  u32_range b ->
  let a := Z.lxor (Z.lxor b (Z.shiftr b 15)) (Z.shiftr b 30) in
  u32_range a /\ Z.lxor a (Z.shiftr a 15) = b.
Proof.
  intros Hb a. subst a. split.
  - apply u32_range_of_bits.
    + apply Z.lxor_nonneg. rewrite Z.shiftr_nonneg.
      pose proof Hb as [Hb0 _].
      assert (0 <= Z.lxor b (Z.shiftr b 15)); [| tauto].
      apply Z.lxor_nonneg. rewrite Z.shiftr_nonneg. tauto.
    + intros n Hn. rewrite !Z.lxor_spec, !Z.shiftr_spec by lia.
      rewrite !(u32_bits_high b) by (assumption || lia). reflexivity.
  - apply Z.bits_inj'. intros n Hn.
    rewrite !Z.lxor_spec, !Z.shiftr_spec, !Z.lxor_spec, !Z.shiftr_spec by lia.
    rewrite (u32_bits_high b (n + 15 + 30)) by (assumption || lia).
    replace (n + 15 + 15) with (n + 30) by lia.
    destruct (Z.testbit b n), (Z.testbit b (n + 15)), (Z.testbit b (n + 30));
      reflexivity.
Qed.

(** Multiplication by an invertible constant is undone by multiplication
    by its inverse modulo [2 ^ 32]. *)
Lemma mul_undo (a c ci : Z) :
  u32_range a -> (c * ci) mod 2 ^ 32 = 1 -> u32 (u32 (a * c) * ci) = a.
Proof.
  intros Ha Hc. unfold u32.
  rewrite Z.mul_mod_idemp_l by lia.
  rewrite <- Z.mul_assoc, <- Z.mul_mod_idemp_r, Hc, Z.mul_1_r by lia.
  apply Z.mod_small. exact Ha.
Qed.

Lemma hash_range (a : Z) : u32_range a -> u32_range (hash a).
Proof.
  intros Ha. unfold hash. apply xorshift_range; [apply u32_is_u32 | lia].
Qed.

Lemma hash_inv_range (a : Z) : u32_range a -> u32_range (hash_inv a).
Proof.
  intros Ha. unfold hash_inv. apply xorshift_range; [apply u32_is_u32 | lia].
Qed.

Lemma hash_inv_hash (a : Z) : u32_range a -> hash_inv (hash a) = a.
Proof.
  intros Ha. unfold hash, hash_inv.
  set (a1 := Z.lxor a (Z.shiftr a 16)).
  assert (R1 : u32_range a1) by (apply xorshift_range; [assumption | lia]).
  set (a2 := u32 (a1 * 0x7feb352d)).
  assert (R2 : u32_range a2) by apply u32_is_u32.
  set (a3 := Z.lxor a2 (Z.shiftr a2 15)).
  assert (R3 : u32_range a3) by (apply xorshift_range; [assumption | lia]).
  set (a4 := u32 (a3 * 0x846ca68b)).
  assert (R4 : u32_range a4) by apply u32_is_u32.
  rewrite (xorshift16_involutive a4 R4).
  unfold a4. rewrite (mul_undo a3) by (assumption || reflexivity).
  unfold a3. rewrite (xorshift15_undo a2 R2).
  unfold a2. rewrite (mul_undo a1) by (assumption || reflexivity).
  apply (xorshift16_involutive a Ha).
Qed.

Lemma hash_hash_inv (y : Z) : u32_range y -> hash (hash_inv y) = y.
Proof.
  intros Hy. unfold hash, hash_inv.
  set (y1 := Z.lxor y (Z.shiftr y 16)).
  assert (R1 : u32_range y1) by (apply xorshift_range; [assumption | lia]).
  set (y2 := u32 (y1 * 0x43021123)).
  assert (R2 : u32_range y2) by apply u32_is_u32.
  set (y3 := Z.lxor (Z.lxor y2 (Z.shiftr y2 15)) (Z.shiftr y2 30)).
  destruct (xorshift15_redo y2 R2) as [R3 E3]. fold y3 in R3, E3.
  set (y4 := u32 (y3 * 0x1d69e2a5)).
  assert (R4 : u32_range y4) by apply u32_is_u32.
  rewrite (xorshift16_involutive y4 R4).
  unfold y4. rewrite (mul_undo y3) by (assumption || reflexivity).
  rewrite E3.
  unfold y2. rewrite (mul_undo y1) by (assumption || reflexivity).
  apply (xorshift16_involutive y Hy).
Qed.

(* ================================================================== *)
(** * Facts about the maps *)

Lemma lookup_backend_in (m : maps) (idx : Z) (b : backend) :
  lookup_backend m idx = Some b -> In b (backends m).
Proof.
  unfold lookup_backend, bpf_map_lookup_elem.
  destruct ((0 <=? idx) && (idx <? MAX_BACKENDS)); [| discriminate].
  apply nth_error_In.
Qed.

Lemma lookup_backend_typed (m : maps) (idx : Z) (b : backend) :
  maps_typed m -> lookup_backend m idx = Some b -> u32_range (ip b).
Proof.
  intros [Hb _] Hl. apply lookup_backend_in in Hl.
  rewrite Forall_forall in Hb. now apply Hb.
Qed.

Lemma lookup_backend_capacity (m : maps) (idx : Z) :
  MAX_BACKENDS <= idx -> lookup_backend m idx = None.
Proof.
  intros Hi. unfold lookup_backend, bpf_map_lookup_elem.
  destruct (Z.ltb_spec idx MAX_BACKENDS); [lia |].
  now rewrite andb_false_r.
Qed.

Lemma lookup_backend_allocated (m : maps) (idx : Z) :
  maps_allocated m -> 0 <= idx < MAX_BACKENDS ->
  exists b, lookup_backend m idx = Some b.
Proof.
  intros [Hlen _] Hi. unfold lookup_backend, bpf_map_lookup_elem.
  destruct (Z.leb_spec 0 idx); [| lia].
  destruct (Z.ltb_spec idx MAX_BACKENDS); [| lia].
  cbn [andb].
  destruct (nth_error (backends m) (Z.to_nat idx)) as [b|] eqn:E.
  - now exists b.
  - apply nth_error_None in E. lia.
Qed.

(* ================================================================== *)
(** * Properties of the program *)

(** C1.  When [xdp_load_balancer] returns [XDP_TX], the backend at index
    [hash saddr mod count] was selected; in the resulting buffer the IPv4
    destination address is that backend's [ip], the six bytes of the
    Ethernet destination are its [mac], the buffer has its old length,
    and every byte outside those two fields, the IPv4 checksum among
    them, is the byte the buffer held before the call.  The map values
    are 32-bit words, as their C type [__u32] has it. *)
Theorem transmit_rewrites_destination
    (e : endianness) (m : maps) (pkt : packet) (o : outcome) :
  maps_typed m ->
  xdp_load_balancer e m pkt = Some o ->
  action o = XDP_TX ->
  exists s c b,
    load32 e pkt off_saddr = Some s /\
    lookup_count m = Some c /\
    lookup_backend m (hash s mod c) = Some b /\
    load32 e (data o) off_daddr = Some (ip b) /\
    read_bytes (data o) off_h_dest 6 = Some (ether_bytes (mac b)) /\
    length (data o) = length pkt /\
    (forall i : nat, ~ rewritten i -> nth_error (data o) i = nth_error pkt i) /\
    load16 e (data o) off_check = load16 e pkt off_check.
Proof.
  intros Htyped Hrun Hact.
  pose proof (xdp_load_balancer_run e m pkt) as R. rewrite Hrun in R.
  inversion R as [ | | | s d c b pkt' Hf Hs Hd Hc Hc0 Hb Hlen Hframe Hrd Hrm];
    subst; try discriminate.
  exists s, c, b. cbn [data]. repeat split; try assumption.
  - unfold load32. rewrite Hrd. cbn [option_map]. f_equal.
    apply decode_encode_u32. eapply lookup_backend_typed; eauto.
  - unfold load16. f_equal. apply read_bytes_ext; [exact Hlen |].
    intros i Hi. apply Hframe. unfold rewritten. unfold_layout. lia.
Qed.

Lemma transmit_rewrites_destination_witness :
  exists o,
    xdp_load_balancer LittleEndian demo_maps demo_packet = Some o /\
    action o = XDP_TX /\
    load32 LittleEndian (data o) off_daddr = Some (ip demo_backend2) /\
    read_bytes (data o) off_h_dest 6 = Some (ether_bytes (mac demo_backend2)) /\
    (forall i : nat, ~ rewritten i ->
       nth_error (data o) i = nth_error demo_packet i).
Proof.
  assert (Ht : maps_typed demo_maps).
  { split; repeat constructor; unfold u32_range; simpl; lia. }
  destruct (xdp_load_balancer LittleEndian demo_maps demo_packet)
    as [o|] eqn:E; [| discriminate E].
  assert (Ha : action o = XDP_TX).
  { vm_compute in E. injection E as <-. reflexivity. }
  destruct (transmit_rewrites_destination LittleEndian demo_maps demo_packet
              o Ht E Ha)
    as (s & c & b & Hs & Hc & Hb & Hd & Hm & _ & Hf & _).
  vm_compute in Hs. injection Hs as <-.
  vm_compute in Hc. injection Hc as <-.
  vm_compute in Hb. injection Hb as <-.
  exists o. repeat split; assumption.
Defined.

(** C2.  A buffer shorter than an Ethernet header, or whose Ethernet
    protocol field is not 0x0800, or shorter than an Ethernet header
    followed by a minimal IPv4 header, makes [xdp_load_balancer] return
    [XDP_PASS] with the buffer unchanged. *)
Theorem non_ipv4_passes_unchanged
    (e : endianness) (m : maps) (pkt : packet) :
  Z.of_nat (length pkt) < sizeof_ethhdr \/
  eth_proto pkt <> Some ETH_P_IP \/
  Z.of_nat (length pkt) < sizeof_ethhdr + sizeof_iphdr ->
  xdp_load_balancer e m pkt = Some (mkOutcome XDP_PASS pkt []).
Proof.
  intros Hbad.
  assert (Hnf : ~ ipv4_frame pkt).
  { intros [Hl Hp]. unfold_layout. destruct Hbad as [H | [H | H]];
      [lia | contradiction | lia]. }
  pose proof (xdp_load_balancer_run e m pkt) as R.
  inversion R; try contradiction. reflexivity.
Qed.

Lemma non_ipv4_passes_unchanged_witness :
  xdp_load_balancer BigEndian demo_maps arp_packet
  = Some (mkOutcome XDP_PASS arp_packet []).
Proof.
  apply (non_ipv4_passes_unchanged BigEndian demo_maps arp_packet).
  right. left. vm_compute. discriminate.
Defined.

(** C3.  On a well-formed IPv4 frame and a table whose count is at
    least 1, the index [xdp_load_balancer] selects is
    [hash saddr mod count]; hence two frames with the same source
    address, run against the same maps, select the same index. *)
Theorem selected_index_is_hash_mod_count
    (e : endianness) (m : maps) (c : Z) (pkt : packet) :
  ipv4_frame pkt ->
  lookup_count m = Some c ->
  1 <= c ->
  (exists s,
     load32 e pkt off_saddr = Some s /\
     selected_index (xdp_load_balancer e m pkt) = Some (hash s mod c)) /\
  (forall pkt' : packet,
     ipv4_frame pkt' ->
     load32 e pkt' off_saddr = load32 e pkt off_saddr ->
     selected_index (xdp_load_balancer e m pkt')
     = selected_index (xdp_load_balancer e m pkt)).
Proof.
  intros Hf Hc Hc1.
  assert (Hsel : forall p, ipv4_frame p ->
            exists s, load32 e p off_saddr = Some s /\
              selected_index (xdp_load_balancer e m p) = Some (hash s mod c)).
  { intros p Hp. pose proof (xdp_load_balancer_run e m p) as R.
    inversion R as [ Hn | s d _ _ _ [Hn | Hn]
                   | s d c' _ Hs _ Hc' _ _
                   | s d c' b p' _ Hs _ Hc' _ _ _ _ _ _ ].
    - contradiction.
    - congruence.
    - rewrite Hc in Hn. injection Hn as ->. lia.
    - exists s. split; [exact Hs |]. replace c' with c by congruence.
      reflexivity.
    - exists s. split; [exact Hs |]. replace c' with c by congruence.
      reflexivity. }
  split.
  - now apply Hsel.
  - intros pkt' Hf' Hsame.
    destruct (Hsel pkt Hf) as (s & Hs & ->).
    destruct (Hsel pkt' Hf') as (s' & Hs' & ->).
    congruence.
Qed.

Lemma selected_index_is_hash_mod_count_witness :
  selected_index (xdp_load_balancer LittleEndian demo_maps demo_packet)
  = Some (hash 0x0501a8c0 mod 2).
Proof.
  assert (Hf : ipv4_frame demo_packet).
  { split; [simpl; unfold_layout; lia | reflexivity]. }
  assert (Hc : lookup_count demo_maps = Some 2) by reflexivity.
  assert (H1 : 1 <= 2) by lia.
  destruct (selected_index_is_hash_mod_count LittleEndian demo_maps 2
              demo_packet Hf Hc H1) as [(s & Hs & Hsel) _].
  vm_compute in Hs. injection Hs as <-. exact Hsel.
Defined.

(** C4.  On a well-formed IPv4 frame, when the count entry is absent or
    holds zero, [xdp_load_balancer] returns [XDP_PASS] and the buffer is
    unchanged. *)
Theorem no_backends_passes_unchanged
    (e : endianness) (m : maps) (pkt : packet) :
  ipv4_frame pkt ->
  lookup_count m = None \/ lookup_count m = Some 0 ->
  exists o,
    xdp_load_balancer e m pkt = Some o /\
    action o = XDP_PASS /\ data o = pkt.
Proof.
  intros Hf Hc.
  pose proof (xdp_load_balancer_run e m pkt) as R.
  inversion R; try contradiction.
  - eexists. split; [reflexivity |]. split; reflexivity.
  - destruct Hc; congruence.
  - destruct Hc; congruence.
Qed.

Lemma no_backends_passes_unchanged_witness :
  exists o,
    xdp_load_balancer LittleEndian empty_maps demo_packet = Some o /\
    action o = XDP_PASS /\ data o = demo_packet.
Proof.
  apply (no_backends_passes_unchanged LittleEndian empty_maps demo_packet).
  - split; [simpl; unfold_layout; lia | reflexivity].
  - right. reflexivity.
Defined.

(** Counterexample to C5 as stated: with two active backends the lookup
    of index 5 succeeds, although 5 is not below the count. *)
Lemma lookup_ignores_active_count :
  ~ (forall idx c : Z,
       lookup_count demo_maps = Some c ->
       (lookup_backend demo_maps idx = None <-> c <= idx)).
Proof.
  intros H. specialize (H 5 2 eq_refl).
  destruct H as [_ H]. assert (H2 : 2 <= 5) by lia.
  specialize (H H2). vm_compute in H. discriminate H.
Qed.

(** C5, amended.  On the allocated map the lookup of an index fails
    exactly when the index is at least [MAX_BACKENDS], whatever the
    active count is.  The index [xdp_load_balancer] looks up on an IPv4
    frame is [hash saddr mod count], which is below the count; the
    program returns [XDP_PASS] exactly when that lookup fails, and then
    the buffer is unchanged. *)
Theorem lookup_fails_from_capacity
    (e : endianness) (m : maps) :
  maps_allocated m ->
  (forall idx : Z,
     0 <= idx -> (lookup_backend m idx = None <-> MAX_BACKENDS <= idx)) /\
  (forall (pkt : packet) (s c : Z),
     ipv4_frame pkt ->
     load32 e pkt off_saddr = Some s ->
     lookup_count m = Some c ->
     0 < c ->
     selected_index (xdp_load_balancer e m pkt) = Some (hash s mod c) /\
     0 <= hash s mod c < c /\
     (lookup_backend m (hash s mod c) = None <->
      option_map action (xdp_load_balancer e m pkt) = Some XDP_PASS) /\
     (lookup_backend m (hash s mod c) = None ->
      exists o,
        xdp_load_balancer e m pkt = Some o /\
        action o = XDP_PASS /\ data o = pkt)).
Proof.
  intros Halloc. split.
  - intros idx Hidx. split.
    + intros Hnone. destruct (Z.lt_ge_cases idx MAX_BACKENDS) as [Hlt | Hge];
        [| exact Hge].
      destruct (lookup_backend_allocated m idx Halloc) as [b Hb]; [lia |].
      congruence.
    + apply lookup_backend_capacity.
  - intros pkt s c Hf Hs Hc Hpos.
    pose proof (xdp_load_balancer_run e m pkt) as R.
    inversion R as [ Hn Hr | s' d Hf' Hs' Hd Hn Hr
                   | s' d c' Hf' Hs' Hd Hc' Hc0 Hb Hr
                   | s' d c' b p' Hf' Hs' Hd Hc' Hc0 Hb Hlen Hframe Hrd Hrm Hr ].
    + contradiction.
    + destruct Hn as [Hn | Hn]; rewrite Hc in Hn; [discriminate |].
      injection Hn as ->. lia.
    + replace s' with s in * by congruence.
      replace c' with c in * by congruence.
      cbn [selected_index option_map action trace traced_index].
      split; [reflexivity |].
      split; [apply Z.mod_pos_bound; exact Hpos |].
      split; [split; intros _; [reflexivity | exact Hb] |].
      intros _. eexists. split; [reflexivity |]. split; reflexivity.
    + replace s' with s in * by congruence.
      replace c' with c in * by congruence.
      cbn [selected_index option_map action trace traced_index].
      split; [reflexivity |].
      split; [apply Z.mod_pos_bound; exact Hpos |].
      split; [split; intros H; [congruence | discriminate H] |].
      intros Hnone. congruence.
Qed.

Lemma lookup_fails_from_capacity_witness :
  (lookup_backend overcount_maps 8 = None <-> MAX_BACKENDS <= 8) /\
  selected_index (xdp_load_balancer LittleEndian overcount_maps demo_packet)
  = Some (hash 0x0501a8c0 mod 4000000000) /\
  exists o,
    xdp_load_balancer LittleEndian overcount_maps demo_packet = Some o /\
    action o = XDP_PASS /\ data o = demo_packet.
Proof.
  assert (Ha : maps_allocated overcount_maps) by (split; reflexivity).
  destruct (lookup_fails_from_capacity LittleEndian overcount_maps Ha)
    as [Hget Hrun].
  split.
  - apply Hget. lia.
  - assert (Hf : ipv4_frame demo_packet).
    { split; [simpl; unfold_layout; lia | reflexivity]. }
    assert (Hs : load32 LittleEndian demo_packet off_saddr = Some 0x0501a8c0)
      by reflexivity.
    assert (Hc : lookup_count overcount_maps = Some 4000000000)
      by reflexivity.
    assert (Hp : 0 < 4000000000) by lia.
    destruct (Hrun demo_packet _ _ Hf Hs Hc Hp) as (Hsel & _ & _ & Hpass).
    split; [exact Hsel |]. apply Hpass. reflexivity.
Defined.

(** C6.  [replace] with more than 8 entries fails with
    [CapacityExceeded] and leaves both maps as they were; with at most 8
    entries it succeeds, the active count afterwards is the length of
    the sequence, and every index below it holds the entry installed
    there. *)
Theorem replace_capacity (entries : list backend) (m : maps) :
  (MAX_BACKENDS < Z.of_nat (length entries) ->
   replace entries m = (inl CapacityExceeded, m)) /\
  (Z.of_nat (length entries) <= MAX_BACKENDS ->
   exists m',
     replace entries m = (inr tt, m') /\
     lookup_count m' = Some (Z.of_nat (length entries)) /\
     (forall i : nat, (i < length entries)%nat ->
        lookup_backend m' (Z.of_nat i) = nth_error entries i) /\
     (maps_allocated m -> maps_allocated m')).
Proof.
  unfold replace. split; intros Hlen.
  - destruct (Z.ltb_spec MAX_BACKENDS (Z.of_nat (length entries)));
      [reflexivity | lia].
  - destruct (Z.ltb_spec MAX_BACKENDS (Z.of_nat (length entries))); [lia |].
    eexists. split; [reflexivity |]. split; [reflexivity |]. split.
    + intros i Hi. unfold lookup_backend, bpf_map_lookup_elem. cbn [backends].
      destruct (Z.leb_spec 0 (Z.of_nat i)); [| lia].
      destruct (Z.ltb_spec (Z.of_nat i) MAX_BACKENDS); [| lia].
      cbn [andb]. rewrite Nat2Z.id. now apply nth_error_app1.
    + intros [Hb Hc]. split; cbn [backends backend_count]; [| reflexivity].
      rewrite length_app, length_skipn. lia.
Qed.

Lemma replace_capacity_witness :
  replace (repeat demo_backend1 9) demo_maps = (inl CapacityExceeded, demo_maps)
  /\ exists m',
       replace [demo_backend2] demo_maps = (inr tt, m') /\
       lookup_count m' = Some 1.
Proof.
  split.
  - apply (proj1 (replace_capacity (repeat demo_backend1 9) demo_maps)).
    simpl. unfold MAX_BACKENDS. lia.
  - destruct (proj2 (replace_capacity [demo_backend2] demo_maps))
      as (m' & Hr & Hc & _).
    + simpl. unfold MAX_BACKENDS. lia.
    + exists m'. split; assumption.
Defined.

(** C7.  [xdp_load_balancer] always returns, and what it returns is
    either [XDP_PASS] with the buffer unchanged or [XDP_TX]; it never
    returns [XDP_DROP].  A frame the classifier rejects, an absent or
    zero count, and a failed backend lookup all end in [XDP_PASS]. *)
Theorem pass_or_transmit (e : endianness) (m : maps) (pkt : packet) :
  exists o,
    xdp_load_balancer e m pkt = Some o /\
    (action o = XDP_PASS /\ data o = pkt \/ action o = XDP_TX) /\
    action o <> XDP_DROP /\
    (~ ipv4_frame pkt \/
     lookup_count m = None \/
     lookup_count m = Some 0 \/
     (exists s c, load32 e pkt off_saddr = Some s /\
                  lookup_count m = Some c /\
                  lookup_backend m (hash s mod c) = None) ->
     action o = XDP_PASS /\ data o = pkt).
Proof.
  pose proof (xdp_load_balancer_run e m pkt) as R.
  inversion R as [ Hn Hr | s d Hf Hs Hd Hn Hr
                 | s d c Hf Hs Hd Hc Hc0 Hb Hr
                 | s d c b p' Hf Hs Hd Hc Hc0 Hb Hlen Hframe Hrd Hrm Hr ];
    (eexists; split; [reflexivity |]); cbn [action data].
  1-3: split; [left; split; reflexivity |];
       split; [discriminate |]; intros _; split; reflexivity.
  split; [right; reflexivity |]. split; [discriminate |].
  intros [H | [H | [H | (s' & c' & Hs' & Hc' & Hb')]]].
  - contradiction.
  - congruence.
  - congruence.
  - replace s' with s in Hb' by congruence.
    replace c' with c in Hb' by congruence. congruence.
Qed.

Lemma pass_or_transmit_witness :
  exists o,
    xdp_load_balancer BigEndian demo_maps (firstn 20 demo_packet) = Some o /\
    action o = XDP_PASS /\ data o = firstn 20 demo_packet.
Proof.
  destruct (pass_or_transmit BigEndian demo_maps (firstn 20 demo_packet))
    as (o & Hr & _ & _ & Hfail).
  exists o. split; [exact Hr |]. apply Hfail. left.
  intros [Hlen _]. simpl in Hlen. unfold_layout. lia.
Defined.

(** C9.  No call of [xdp_load_balancer] accesses the packet outside its
    bounds, whatever the buffer and the maps hold: the result is never
    the out-of-bounds outcome [None].  When the selected index
    [hash saddr mod count] is 8 or more, which a stored count above the
    capacity allows, the backend lookup fails and the program returns
    [XDP_PASS] with the buffer unchanged. *)
Theorem accesses_in_bounds (e : endianness) (m : maps) (pkt : packet) :
  xdp_load_balancer e m pkt <> None /\
  (forall s c : Z,
     ipv4_frame pkt ->
     load32 e pkt off_saddr = Some s ->
     lookup_count m = Some c ->
     c <> 0 ->
     MAX_BACKENDS <= hash s mod c ->
     lookup_backend m (hash s mod c) = None /\
     exists d,
       xdp_load_balancer e m pkt
       = Some (mkOutcome XDP_PASS pkt
                 [TraceIPv4 s d; TraceLookupFailed (hash s mod c)])).
Proof.
  pose proof (xdp_load_balancer_run e m pkt) as R. split.
  - inversion R; discriminate.
  - intros s c Hf Hs Hc Hc0 Hidx.
    pose proof (lookup_backend_capacity m _ Hidx) as Hnone.
    split; [exact Hnone |].
    inversion R as [ Hn | s' d _ _ _ [Hn | Hn]
                   | s' d c' _ Hs' _ Hc' _ _
                   | s' d c' b p' _ Hs' _ Hc' _ Hb _ _ _ _ ].
    + contradiction.
    + congruence.
    + congruence.
    + exists d. replace s' with s by congruence.
      replace c' with c by congruence. reflexivity.
    + replace s' with s in Hb by congruence.
      replace c' with c in Hb by congruence. congruence.
Qed.

Lemma accesses_in_bounds_witness :
  lookup_backend overcount_maps (hash 0x0501a8c0 mod 4000000000) = None /\
  exists d,
    xdp_load_balancer LittleEndian overcount_maps demo_packet
    = Some (mkOutcome XDP_PASS demo_packet
              [TraceIPv4 0x0501a8c0 d;
               TraceLookupFailed (hash 0x0501a8c0 mod 4000000000)]).
Proof.
  apply (proj2 (accesses_in_bounds LittleEndian overcount_maps demo_packet)).
  - split; [simpl; unfold_layout; lia | reflexivity].
  - reflexivity.
  - reflexivity.
  - lia.
  - vm_compute. discriminate.
Defined.

(** C10.  [hash] is a bijection of the 32-bit unsigned integers: it maps
    them to 32-bit unsigned integers, distinct inputs have distinct
    digests, and every 32-bit value is the digest of some input.  Each
    xor-shift and each multiplication is undone by the matching step of
    [hash_inv]. *)
Theorem hash_bijective :
  (forall a, u32_range a -> u32_range (hash a)) /\
  (forall a b, u32_range a -> u32_range b -> hash a = hash b -> a = b) /\
  (forall y, u32_range y -> exists x, u32_range x /\ hash x = y) /\
  (forall a, u32_range a -> hash_inv (hash a) = a).
Proof.
  split; [exact hash_range |]. split; [| split].
  - intros a b Ha Hb Heq.
    rewrite <- (hash_inv_hash a Ha), <- (hash_inv_hash b Hb). now rewrite Heq.
  - intros y Hy. exists (hash_inv y). split.
    + now apply hash_inv_range.
    + now apply hash_hash_inv.
  - exact hash_inv_hash.
Qed.

Lemma hash_bijective_witness :
  u32_range (hash 0x0501a8c0) /\
  (exists x, u32_range x /\ hash x = 581213717) /\
  hash_inv (hash 0x0501a8c0) = 0x0501a8c0.
Proof.
  destruct hash_bijective as (Hr & _ & Hsurj & Hinv).
  assert (H1 : u32_range 0x0501a8c0) by (unfold u32_range; lia).
  assert (H2 : u32_range 581213717) by (unfold u32_range; lia).
  split; [exact (Hr _ H1) |]. split; [exact (Hsurj _ H2) | exact (Hinv _ H1)].
Defined.

(* ================================================================== *)
(** * The specification's example, evaluated *)

(** Source 192.168.1.5 against the two-backend table: the frame goes to
    index 1 on a little-endian target and to index 0 on a big-endian
    one, where the same four bytes load as a different word. *)
Example demo_index_little_endian :
  selected_index (xdp_load_balancer LittleEndian demo_maps demo_packet)
  = Some 1.
Proof. reflexivity. Qed.

Example demo_index_big_endian :
  selected_index (xdp_load_balancer BigEndian demo_maps demo_packet)
  = Some 0.
Proof. reflexivity. Qed.

Example demo_rewritten_frame :
  option_map data (xdp_load_balancer LittleEndian demo_maps demo_packet)
  = Some (ether_bytes (mac demo_backend2)
          ++ firstn 24 (skipn 6 demo_packet)
          ++ [x0a; x00; x00; x02]
          ++ skipn 34 demo_packet).
Proof. reflexivity. Qed.

Example demo_truncated_frame :
  xdp_load_balancer LittleEndian demo_maps (firstn 33 demo_packet)
  = Some (mkOutcome XDP_PASS (firstn 33 demo_packet) []).
Proof. reflexivity. Qed.

(* ================================================================== *)
(** * Further properties of the program *)

Lemma read_bytes_nth (p : packet) (off : Z) (n : nat) (bs : list byte) :
  read_bytes p off n = Some bs ->
  forall i : nat, (i < n)%nat ->
    nth_error p (Z.to_nat off + i) = nth_error bs i.
Proof.
  unfold read_bytes. destruct (in_bounds p off n); [| discriminate].
  intros [= <-] i Hi. rewrite nth_error_firstn.
  destruct (Nat.ltb_spec i n); [| lia].
  now rewrite nth_error_skipn.
Qed.

(** A buffer is determined by its bytes outside the two rewritten fields
    together with the contents of those fields. *)
Lemma rewritten_fields_determine (p q : packet) (dst hw : list byte) :
  (forall i : nat, ~ rewritten i -> nth_error p i = nth_error q i) ->
  read_bytes p off_daddr 4 = Some dst ->
  read_bytes q off_daddr 4 = Some dst ->
  read_bytes p off_h_dest 6 = Some hw ->
  read_bytes q off_h_dest 6 = Some hw ->
  p = q.
Proof.
  intros Hout Hpd Hqd Hph Hqh. apply nth_error_ext. intros i.
  destruct (Nat.lt_ge_cases i 6) as [H6 | H6].
  - pose proof (read_bytes_nth _ _ _ _ Hph i H6) as E1.
    pose proof (read_bytes_nth _ _ _ _ Hqh i H6) as E2.
    unfold_layout. simpl in E1, E2. congruence.
  - destruct (Nat.lt_ge_cases i 30) as [H30 | H30].
    { apply Hout. unfold rewritten. lia. }
    destruct (Nat.lt_ge_cases i 34) as [H34 | H34].
    2:{ apply Hout. unfold rewritten. lia. }
    assert (Hi : (i - 30 < 4)%nat) by lia.
    pose proof (read_bytes_nth _ _ _ _ Hpd _ Hi) as E1.
    pose proof (read_bytes_nth _ _ _ _ Hqd _ Hi) as E2.
    unfold_layout.
    replace (Z.to_nat (14 + 16) + (i - 30))%nat with i in E1, E2 by lia.
    congruence.
Qed.

Section Agree.
Variables (e : endianness) (p q : packet).
Hypothesis Hlen : length p = length q.
Hypothesis Hout :
  forall i : nat, ~ rewritten i -> nth_error p i = nth_error q i.

Lemma agree_ipv4_frame : ipv4_frame p <-> ipv4_frame q.
Proof.
  unfold ipv4_frame, eth_proto. rewrite Hlen.
  replace (read_bytes p off_h_proto 2) with (read_bytes q off_h_proto 2);
    [reflexivity |].
  symmetry. apply read_bytes_ext; [exact Hlen |].
  intros i Hi. apply Hout. unfold rewritten. unfold_layout. lia.
Qed.

Lemma agree_saddr : load32 e p off_saddr = load32 e q off_saddr.
Proof.
  unfold load32. f_equal. apply read_bytes_ext; [exact Hlen |].
  intros i Hi. apply Hout. unfold rewritten. unfold_layout. lia.
Qed.

(** Two runs on buffers that agree outside the rewritten fields take
    the same branch and, when they forward, produce the same buffer. *)
Lemma run_agree (m : maps) (r1 r2 : option outcome) :
  run e m p r1 -> run e m q r2 ->
  exists o1 o2,
    r1 = Some o1 /\ r2 = Some o2 /\
    action o1 = action o2 /\
    traced_index (trace o1) = traced_index (trace o2) /\
    (action o1 = XDP_TX -> data o1 = data o2).
Proof.
  pose proof agree_ipv4_frame as Hfr. pose proof agree_saddr as Hsa.
  intros R1 R2.
  inversion R1 as [ Hn1 | s1 d1 Hf1 Hs1 Hd1 Hc1
                  | s1 d1 c1 Hf1 Hs1 Hd1 Hc1 Hz1 Hb1
                  | s1 d1 c1 b1 p' Hf1 Hs1 Hd1 Hc1 Hz1 Hb1 Hl1 Ho1 Hrd1 Hrm1 ];
  inversion R2 as [ Hn2 | s2 d2 Hf2 Hs2 Hd2 Hc2
                  | s2 d2 c2 Hf2 Hs2 Hd2 Hc2 Hz2 Hb2
                  | s2 d2 c2 b2 q' Hf2 Hs2 Hd2 Hc2 Hz2 Hb2 Hl2 Ho2 Hrd2 Hrm2 ];
  subst; try tauto;
  try (destruct Hc1; congruence); try (destruct Hc2; congruence);
  try (assert (s1 = s2) by congruence; assert (c1 = c2) by congruence;
       subst; congruence);
  do 2 eexists; (split; [reflexivity |]); (split; [reflexivity |]);
  cbn [action data trace traced_index].
  - repeat split; discriminate.
  - repeat split; discriminate.
  - assert (s1 = s2) by congruence. assert (c1 = c2) by congruence. subst.
    repeat split; discriminate.
  - assert (s1 = s2) by congruence. assert (c1 = c2) by congruence. subst.
    assert (b1 = b2) by congruence. subst.
    repeat split. intros _.
    apply (rewritten_fields_determine p' q' (encode e 4 (ip b2))
             (ether_bytes (mac b2))); try assumption.
    intros i Hi. rewrite Ho1, Ho2 by assumption. now apply Hout.
Qed.
End Agree.

Lemma trace_nil_iff (e : endianness) (m : maps) (pkt : packet) (o : outcome) :
  run e m pkt (Some o) -> (trace o = [] <-> ~ ipv4_frame pkt).
Proof.
  intros R. inversion R; subst; cbn [trace]; split; intros H;
    solve [assumption | reflexivity | discriminate | contradiction].
Qed.

Lemma run_total (e : endianness) (m : maps) (pkt : packet) :
  exists o, xdp_load_balancer e m pkt = Some o /\ run e m pkt (Some o).
Proof.
  pose proof (xdp_load_balancer_run e m pkt) as R.
  destruct (xdp_load_balancer e m pkt) as [o|] eqn:E.
  - now exists o.
  - inversion R.
Qed.

(** X1.  [xdp_load_balancer] returns [XDP_TX] exactly when the buffer
    passes the classifier, the count entry is present and not zero, and
    the slot at index [hash saddr mod count] is present. *)
Theorem transmit_iff (e : endianness) (m : maps) (pkt : packet) :
  option_map action (xdp_load_balancer e m pkt) = Some XDP_TX <->
  ipv4_frame pkt /\
  exists s c b,
    load32 e pkt off_saddr = Some s /\
    lookup_count m = Some c /\ c <> 0 /\
    lookup_backend m (hash s mod c) = Some b.
Proof.
  pose proof (xdp_load_balancer_run e m pkt) as R.
  inversion R as [ Hn Hr | s d Hf Hs Hd Hn Hr
                 | s d c Hf Hs Hd Hc Hc0 Hb Hr
                 | s d c b p' Hf Hs Hd Hc Hc0 Hb Hlen Hframe Hrd Hrm Hr ];
    cbn [option_map action]; split;
    try discriminate; try (intros _; split; [assumption |]; eauto 8).
  - intros [Hf _]. contradiction.
  - intros (_ & s' & c' & b' & _ & Hc' & Hc0 & _). destruct Hn; congruence.
  - intros (_ & s' & c' & b' & Hs' & Hc' & _ & Hb').
    replace s' with s in Hb' by congruence.
    replace c' with c in Hb' by congruence. congruence.
  - reflexivity.
Qed.

Lemma transmit_iff_witness :
  option_map action (xdp_load_balancer LittleEndian demo_maps demo_packet)
  = Some XDP_TX.
Proof.
  apply (proj2 (transmit_iff LittleEndian demo_maps demo_packet)).
  split.
  - split; [simpl; unfold_layout; lia | reflexivity].
  - exists 0x0501a8c0, 2, demo_backend2.
    repeat split; try reflexivity. lia.
Defined.

(** X2.  With both maps allocated and a count above zero, an IPv4 frame
    is forwarded exactly when [hash saddr mod count] is below
    [MAX_BACKENDS]; a count above the capacity therefore lets part of
    the traffic through unmodified. *)
Theorem transmit_iff_index_in_capacity
    (e : endianness) (m : maps) (pkt : packet) (s c : Z) :
  maps_allocated m ->
  ipv4_frame pkt ->
  load32 e pkt off_saddr = Some s ->
  lookup_count m = Some c ->
  0 < c ->
  (option_map action (xdp_load_balancer e m pkt) = Some XDP_TX <->
   hash s mod c < MAX_BACKENDS).
Proof.
  intros Ha Hf Hs Hc Hpos.
  assert (Hidx : 0 <= hash s mod c < c) by (apply Z.mod_pos_bound; exact Hpos).
  pose proof (xdp_load_balancer_run e m pkt) as R.
  inversion R as [ Hn Hr | s' d Hf' Hs' Hd Hn Hr
                 | s' d c' Hf' Hs' Hd Hc' Hc0 Hb Hr
                 | s' d c' b p' Hf' Hs' Hd Hc' Hc0 Hb Hlen Hframe Hrd Hrm Hr ];
    cbn [option_map action].
  - contradiction.
  - destruct Hn as [Hn | Hn]; rewrite Hc in Hn; [discriminate |].
    injection Hn as ->. lia.
  - replace s' with s in Hb by congruence.
    replace c' with c in Hb by congruence.
    split; [discriminate |]. intros Hlt.
    destruct (lookup_backend_allocated m (hash s mod c) Ha) as [b Hb'];
      [lia | congruence].
  - replace s' with s in Hb by congruence.
    replace c' with c in Hb by congruence.
    split; [| reflexivity]. intros _.
    destruct (Z.lt_ge_cases (hash s mod c) MAX_BACKENDS) as [Hlt | Hge];
      [exact Hlt |].
    rewrite (lookup_backend_capacity m _ Hge) in Hb. discriminate.
Qed.

Lemma transmit_iff_index_in_capacity_witness :
  option_map action
    (xdp_load_balancer LittleEndian overcount_maps demo_packet)
  <> Some XDP_TX.
Proof.
  intros Htx.
  assert (Ha : maps_allocated overcount_maps) by (split; reflexivity).
  assert (Hf : ipv4_frame demo_packet).
  { split; [simpl; unfold_layout; lia | reflexivity]. }
  assert (Hs : load32 LittleEndian demo_packet off_saddr = Some 0x0501a8c0)
    by reflexivity.
  assert (Hc : lookup_count overcount_maps = Some 4000000000) by reflexivity.
  assert (Hp : 0 < 4000000000) by lia.
  pose proof (proj1 (transmit_iff_index_in_capacity LittleEndian
                       overcount_maps demo_packet _ _ Ha Hf Hs Hc Hp) Htx)
    as Hlt.
  vm_compute in Hlt. discriminate Hlt.
Defined.

(** X3.  With both maps allocated and a count between 1 and
    [MAX_BACKENDS], every IPv4 frame is forwarded: the lookup of the
    selected index cannot fail, and the selected index is below the
    count. *)
Theorem configured_table_always_transmits
    (e : endianness) (m : maps) (pkt : packet) (c : Z) :
  maps_allocated m ->
  lookup_count m = Some c ->
  1 <= c <= MAX_BACKENDS ->
  ipv4_frame pkt ->
  exists o idx,
    xdp_load_balancer e m pkt = Some o /\
    action o = XDP_TX /\
    traced_index (trace o) = Some idx /\ 0 <= idx < c.
Proof.
  intros Ha Hc Hrange Hf.
  pose proof (xdp_load_balancer_run e m pkt) as R.
  inversion R as [ Hn Hr | s d Hf' Hs Hd Hn Hr
                 | s d c' Hf' Hs Hd Hc' Hc0 Hb Hr
                 | s d c' b p' Hf' Hs Hd Hc' Hc0 Hb Hlen Hframe Hrd Hrm Hr ].
  - contradiction.
  - destruct Hn as [Hn | Hn]; rewrite Hc in Hn; [discriminate |].
    injection Hn as ->. lia.
  - replace c' with c in * by congruence.
    assert (Hidx : 0 <= hash s mod c < c) by (apply Z.mod_pos_bound; lia).
    destruct (lookup_backend_allocated m (hash s mod c) Ha) as [b Hb'];
      [lia | congruence].
  - replace c' with c in * by congruence.
    do 2 eexists. split; [reflexivity |]. cbn [action trace traced_index].
    split; [reflexivity |]. split; [reflexivity |].
    apply Z.mod_pos_bound. lia.
Qed.

Lemma configured_table_always_transmits_witness :
  exists o idx,
    xdp_load_balancer BigEndian demo_maps demo_packet = Some o /\
    action o = XDP_TX /\
    traced_index (trace o) = Some idx /\ 0 <= idx < 2.
Proof.
  apply (configured_table_always_transmits BigEndian demo_maps demo_packet 2).
  - split; reflexivity.
  - reflexivity.
  - unfold MAX_BACKENDS. lia.
  - split; [simpl; unfold_layout; lia | reflexivity].
Defined.

(** X4.  A forwarded buffer is a fixed point of the program: run again
    on its own output against the same maps, [xdp_load_balancer]
    forwards once more, to the same index, and leaves every byte as it
    is. *)
Theorem transmit_fixed_point
    (e : endianness) (m : maps) (pkt : packet) (o : outcome) :
  xdp_load_balancer e m pkt = Some o ->
  action o = XDP_TX ->
  exists o',
    xdp_load_balancer e m (data o) = Some o' /\
    action o' = XDP_TX /\
    data o' = data o /\
    traced_index (trace o') = traced_index (trace o).
Proof.
  intros Hrun Hact.
  pose proof (xdp_load_balancer_run e m pkt) as R1. rewrite Hrun in R1.
  assert (Hsame : length pkt = length (data o) /\
            forall i : nat, ~ rewritten i ->
              nth_error pkt i = nth_error (data o) i).
  { inversion R1 as [ | | | s d c b p' Hf Hs Hd Hc Hc0 Hb Hlen Hframe Hrd Hrm ];
      subst; try discriminate. cbn [data]. split; [congruence |].
    intros i Hi. symmetry. now apply Hframe. }
  destruct Hsame as [Hlen Hout].
  pose proof (xdp_load_balancer_run e m (data o)) as R2.
  destruct (run_agree e pkt (data o) Hlen Hout m _ _ R1 R2)
    as (o1 & o2 & E1 & E2 & Ha & Hi & Hd).
  injection E1 as <-.
  exists o2. split; [exact E2 |]. split; [congruence |].
  split; [symmetry; now apply Hd | congruence].
Qed.

Lemma transmit_fixed_point_witness :
  exists o',
    xdp_load_balancer LittleEndian demo_maps demo_forwarded = Some o' /\
    action o' = XDP_TX /\ data o' = demo_forwarded.
Proof.
  destruct (xdp_load_balancer LittleEndian demo_maps demo_packet)
    as [o|] eqn:E; [| discriminate E].
  assert (Ha : action o = XDP_TX).
  { vm_compute in E. injection E as <-. reflexivity. }
  assert (Hd : data o = demo_forwarded).
  { vm_compute in E. injection E as <-. reflexivity. }
  destruct (transmit_fixed_point LittleEndian demo_maps demo_packet o E Ha)
    as (o' & Hr & Ha' & Hd' & _).
  rewrite Hd in Hr, Hd'. exists o'. repeat split; assumption.
Defined.

(** X5.  The destination fields of the input play no part in the
    decision: two buffers of equal length that agree on every byte
    outside the Ethernet destination and the IPv4 destination address
    get the same action and the same selected index, and when they are
    forwarded the resulting buffers are equal. *)
Theorem destination_fields_ignored
    (e : endianness) (m : maps) (p q : packet) :
  length p = length q ->
  (forall i : nat, ~ rewritten i -> nth_error p i = nth_error q i) ->
  option_map action (xdp_load_balancer e m p)
  = option_map action (xdp_load_balancer e m q) /\
  selected_index (xdp_load_balancer e m p)
  = selected_index (xdp_load_balancer e m q) /\
  (option_map action (xdp_load_balancer e m p) = Some XDP_TX ->
   option_map data (xdp_load_balancer e m p)
   = option_map data (xdp_load_balancer e m q)).
Proof.
  intros Hlen Hout.
  destruct (run_agree e p q Hlen Hout m _ _
              (xdp_load_balancer_run e m p) (xdp_load_balancer_run e m q))
    as (o1 & o2 & E1 & E2 & Ha & Hi & Hd).
  rewrite E1, E2. cbn [option_map selected_index].
  split; [congruence |]. split; [exact Hi |].
  intros [= Htx]. f_equal. now apply Hd.
Qed.

Lemma destination_fields_ignored_witness :
  option_map data (xdp_load_balancer LittleEndian demo_maps demo_packet)
  = option_map data (xdp_load_balancer LittleEndian demo_maps demo_forwarded).
Proof.
  apply (destination_fields_ignored LittleEndian demo_maps
           demo_packet demo_forwarded).
  - reflexivity.
  - intros i Hi. unfold rewritten in Hi.
    do 35 (destruct i as [|i];
           [first [reflexivity | exfalso; apply Hi; lia] |]).
    reflexivity.
  - reflexivity.
Defined.

(** X6.  The trace tells the path taken.  It is empty exactly when the
    classifier rejects the buffer; otherwise it has two records, the
    first carrying the source and destination addresses of the buffer as
    received, and the second is the forwarding record exactly when the
    action is [XDP_TX]. *)
Theorem trace_shape (e : endianness) (m : maps) (pkt : packet) :
  exists o,
    xdp_load_balancer e m pkt = Some o /\
    (trace o = [] <-> ~ ipv4_frame pkt) /\
    (ipv4_frame pkt ->
     exists s d ev,
       load32 e pkt off_saddr = Some s /\
       load32 e pkt off_daddr = Some d /\
       trace o = [TraceIPv4 s d; ev] /\
       (action o = XDP_TX <-> exists idx, ev = TraceForwarding idx)).
Proof.
  destruct (run_total e m pkt) as (o & Hr & R). exists o.
  split; [exact Hr |]. split; [now apply (trace_nil_iff e m) |].
  intros Hf.
  inversion R as [ Hn | s d Hf' Hs Hd Hn
                 | s d c Hf' Hs Hd Hc Hc0 Hb
                 | s d c b p' Hf' Hs Hd Hc Hc0 Hb Hlen Hframe Hrd Hrm ];
    subst; [contradiction | | |];
    exists s, d; eexists; (split; [exact Hs |]); (split; [exact Hd |]);
    (split; [reflexivity |]); cbn [action]; split;
    try discriminate; try (intros [idx Hidx]; discriminate Hidx).
  - intros _. eexists. reflexivity.
  - reflexivity.
Qed.

Lemma trace_shape_witness :
  exists o,
    xdp_load_balancer LittleEndian empty_maps demo_packet = Some o /\
    exists s d ev, trace o = [TraceIPv4 s d; ev] /\ action o <> XDP_TX.
Proof.
  destruct (trace_shape LittleEndian empty_maps demo_packet)
    as (o & Hr & _ & Hshape).
  destruct Hshape as (s & d & ev & _ & _ & Ht & Htx).
  { split; [simpl; unfold_layout; lia | reflexivity]. }
  exists o. split; [exact Hr |]. exists s, d, ev. split; [exact Ht |].
  intros Ha. apply Htx in Ha. destruct Ha as [idx ->].
  vm_compute in Hr. injection Hr as <-. discriminate Ht.
Defined.

Lemma configured_action
    (e : endianness) (m : maps) (pkt : packet) (c : Z) :
  maps_allocated m ->
  lookup_count m = Some c ->
  0 <= c <= MAX_BACKENDS ->
  exists a,
    option_map action (xdp_load_balancer e m pkt) = Some a /\
    (a = XDP_TX /\ ipv4_frame pkt /\ c <> 0 \/
     a = XDP_PASS /\ ~ (ipv4_frame pkt /\ c <> 0)).
Proof.
  intros Ha Hc Hrange.
  pose proof (xdp_load_balancer_run e m pkt) as R.
  inversion R as [ Hn Hr | s d Hf Hs Hd Hn Hr
                 | s d c' Hf Hs Hd Hc' Hc0 Hb Hr
                 | s d c' b p' Hf Hs Hd Hc' Hc0 Hb Hlen Hframe Hrd Hrm Hr ];
    cbn [option_map action]; eexists; (split; [reflexivity |]).
  - right. split; [reflexivity | tauto].
  - right. split; [reflexivity |]. intros [_ Hnz].
    destruct Hn as [Hn | Hn]; congruence.
  - exfalso. replace c' with c in * by congruence.
    assert (Hidx : 0 <= hash s mod c < c) by (apply Z.mod_pos_bound; lia).
    destruct (lookup_backend_allocated m (hash s mod c) Ha) as [b Hb'];
      [lia | congruence].
  - left. replace c' with c in * by congruence. tauto.
Qed.

(** X7.  The byte order of the target does not change the decision.
    Whether the classifier rejects a buffer is the same on both targets,
    and with both maps allocated and a count of at most [MAX_BACKENDS]
    so is the action returned (the selected backend may differ, since
    the source address is hashed as the target loads it). *)
Theorem decision_byte_order_independent
    (e1 e2 : endianness) (m : maps) (pkt : packet) :
  (xdp_load_balancer e1 m pkt = Some (mkOutcome XDP_PASS pkt []) <->
   xdp_load_balancer e2 m pkt = Some (mkOutcome XDP_PASS pkt [])) /\
  (forall c : Z,
     maps_allocated m ->
     lookup_count m = Some c ->
     0 <= c <= MAX_BACKENDS ->
     option_map action (xdp_load_balancer e1 m pkt)
     = option_map action (xdp_load_balancer e2 m pkt)).
Proof.
  split.
  - assert (Hiff : forall e,
              xdp_load_balancer e m pkt = Some (mkOutcome XDP_PASS pkt [])
              <-> ~ ipv4_frame pkt).
    { intros e. destruct (run_total e m pkt) as (o & Hr & R).
      pose proof (trace_nil_iff e m pkt o R) as Hnil. split.
      - intros Heq. apply Hnil. rewrite Hr in Heq. now injection Heq as ->.
      - intros Hn. pose proof (xdp_load_balancer_run e m pkt) as R'.
        inversion R'; try contradiction. reflexivity. }
    rewrite (Hiff e1), (Hiff e2). reflexivity.
  - intros c Ha Hc Hrange.
    destruct (configured_action e1 m pkt c Ha Hc Hrange) as (a1 & -> & H1).
    destruct (configured_action e2 m pkt c Ha Hc Hrange) as (a2 & -> & H2).
    f_equal.
    destruct H1 as [(-> & H1) | (-> & H1)], H2 as [(-> & H2) | (-> & H2)];
      try reflexivity; tauto.
Qed.

Lemma decision_byte_order_independent_witness :
  option_map action (xdp_load_balancer LittleEndian demo_maps demo_packet)
  = option_map action (xdp_load_balancer BigEndian demo_maps demo_packet).
Proof.
  apply (proj2 (decision_byte_order_independent LittleEndian BigEndian
                  demo_maps demo_packet) 2).
  - split; reflexivity.
  - reflexivity.
  - unfold MAX_BACKENDS. lia.
Defined.

Lemma frame_with_source_spec (e : endianness) (s : Z) :
  u32_range s ->
  ipv4_frame (frame_with_source e s) /\
  load32 e (frame_with_source e s) off_saddr = Some s.
Proof.
  intros Hs.
  assert (Hlen : length (frame_with_source e s) = 34%nat).
  { unfold frame_with_source.
    rewrite !length_app, length_encode, !repeat_length. reflexivity. }
  split.
  - split; [rewrite Hlen; unfold_layout; lia |].
    unfold eth_proto, read_bytes, in_bounds. rewrite Hlen. reflexivity.
  - assert (Hr : read_bytes (frame_with_source e s) off_saddr 4
                 = Some (encode e 4 s)).
    { pose proof (read_bytes_is (frame_with_source e s) off_saddr
                    (encode e 4 s)) as H.
      rewrite length_encode in H. apply H.
      - unfold_layout. lia.
      - rewrite Hlen. unfold_layout. lia.
      - intros i Hi. unfold frame_with_source. rewrite !app_assoc.
        rewrite nth_error_app1
          by (rewrite !length_app, length_encode; simpl; lia).
        rewrite nth_error_app2 by (simpl; lia).
        f_equal. simpl. lia. }
    unfold load32. rewrite Hr. cbn [option_map]. f_equal.
    now apply decode_encode_u32.
Qed.

(** X8.  No active backend is unreachable.  With both maps allocated and
    a count of at most [MAX_BACKENDS], for every index below the count
    there is a source address whose frame the program forwards to that
    index; [hash_inv] of the index is one. *)
Theorem every_active_backend_reachable
    (e : endianness) (m : maps) (c k : Z) :
  maps_allocated m ->
  lookup_count m = Some c ->
  c <= MAX_BACKENDS ->
  0 <= k < c ->
  exists s o,
    u32_range s /\
    ipv4_frame (frame_with_source e s) /\
    xdp_load_balancer e m (frame_with_source e s) = Some o /\
    action o = XDP_TX /\
    traced_index (trace o) = Some k.
Proof.
  intros Ha Hc Hcap Hk.
  assert (Hku : u32_range k) by (unfold u32_range, MAX_BACKENDS in *; lia).
  pose proof (hash_inv_range k Hku) as Hs.
  destruct (frame_with_source_spec e (hash_inv k) Hs) as [Hf Hload].
  assert (Hidx : hash (hash_inv k) mod c = k).
  { rewrite hash_hash_inv by exact Hku. apply Z.mod_small. exact Hk. }
  exists (hash_inv k).
  pose proof (xdp_load_balancer_run e m (frame_with_source e (hash_inv k)))
    as R.
  inversion R as [ Hn Hr | s d Hf' Hs' Hd Hn Hr
                 | s d c' Hf' Hs' Hd Hc' Hc0 Hb Hr
                 | s d c' b p' Hf' Hs' Hd Hc' Hc0 Hb Hlen Hframe Hrd Hrm Hr ].
  - contradiction.
  - destruct Hn as [Hn | Hn]; rewrite Hc in Hn; [discriminate |].
    injection Hn as ->. lia.
  - exfalso. replace c' with c in * by congruence.
    replace s with (hash_inv k) in * by congruence. rewrite Hidx in Hb.
    destruct (lookup_backend_allocated m k Ha) as [b Hb'];
      [lia | congruence].
  - replace c' with c in * by congruence.
    replace s with (hash_inv k) in * by congruence. rewrite Hidx.
    eexists. split; [exact Hs |]. split; [exact Hf |].
    split; [reflexivity |]. split; reflexivity.
Qed.

Lemma every_active_backend_reachable_witness :
  exists s o,
    u32_range s /\
    ipv4_frame (frame_with_source LittleEndian s) /\
    xdp_load_balancer LittleEndian demo_maps
      (frame_with_source LittleEndian s) = Some o /\
    action o = XDP_TX /\
    traced_index (trace o) = Some 1.
Proof.
  apply (every_active_backend_reachable LittleEndian demo_maps 2 1).
  - split; reflexivity.
  - reflexivity.
  - unfold MAX_BACKENDS. lia.
  - lia.
Defined.

(** X9.  Flows stick to their backend.  Two IPv4 frames with the same
    source address, whatever else they hold and however long they are,
    get the same action and the same selected index against the same
    maps, and when they are forwarded the same bytes are written to the
    IPv4 destination address and to the Ethernet destination of both. *)
Theorem same_source_same_backend
    (e : endianness) (m : maps) (p q : packet) (o1 o2 : outcome) :
  ipv4_frame p -> ipv4_frame q ->
  load32 e p off_saddr = load32 e q off_saddr ->
  xdp_load_balancer e m p = Some o1 ->
  xdp_load_balancer e m q = Some o2 ->
  action o1 = action o2 /\
  traced_index (trace o1) = traced_index (trace o2) /\
  (action o1 = XDP_TX ->
   read_bytes (data o1) off_daddr 4 = read_bytes (data o2) off_daddr 4 /\
   read_bytes (data o1) off_h_dest 6 = read_bytes (data o2) off_h_dest 6).
Proof.
  intros Hfp Hfq Hsa H1 H2.
  pose proof (xdp_load_balancer_run e m p) as R1. rewrite H1 in R1.
  pose proof (xdp_load_balancer_run e m q) as R2. rewrite H2 in R2.
  inversion R1 as [ Hn1 | s1 d1 Hf1 Hs1 Hd1 Hc1
                  | s1 d1 c1 Hf1 Hs1 Hd1 Hc1 Hz1 Hb1
                  | s1 d1 c1 b1 p' Hf1 Hs1 Hd1 Hc1 Hz1 Hb1 Hl1 Ho1 Hrd1 Hrm1 ];
  inversion R2 as [ Hn2 | s2 d2 Hf2 Hs2 Hd2 Hc2
                  | s2 d2 c2 Hf2 Hs2 Hd2 Hc2 Hz2 Hb2
                  | s2 d2 c2 b2 q' Hf2 Hs2 Hd2 Hc2 Hz2 Hb2 Hl2 Ho2 Hrd2 Hrm2 ];
  subst; cbn [action data trace traced_index]; try contradiction;
  try (destruct Hc1; congruence); try (destruct Hc2; congruence);
  try (repeat split; discriminate);
  assert (s1 = s2) by congruence; assert (c1 = c2) by congruence; subst;
  try congruence.
  - repeat split; discriminate.
  - assert (b1 = b2) by congruence. subst.
    repeat split; congruence.
Qed.

Lemma same_source_same_backend_witness :
  exists o1 o2,
    xdp_load_balancer LittleEndian demo_maps demo_packet = Some o1 /\
    xdp_load_balancer LittleEndian demo_maps
      (frame_with_source LittleEndian 0x0501a8c0) = Some o2 /\
    action o1 = action o2 /\
    traced_index (trace o1) = traced_index (trace o2).
Proof.
  destruct (xdp_load_balancer LittleEndian demo_maps demo_packet)
    as [o1|] eqn:E1; [| discriminate E1].
  destruct (xdp_load_balancer LittleEndian demo_maps
              (frame_with_source LittleEndian 0x0501a8c0))
    as [o2|] eqn:E2; [| discriminate E2].
  exists o1, o2. split; [reflexivity |]. split; [reflexivity |].
  destruct (same_source_same_backend LittleEndian demo_maps demo_packet
              (frame_with_source LittleEndian 0x0501a8c0) o1 o2)
    as (Ha & Hi & _).
  - split; [simpl; unfold_layout; lia | reflexivity].
  - split; [simpl; unfold_layout; lia | reflexivity].
  - reflexivity.
  - exact E1.
  - exact E2.
  - split; assumption.
Defined.

Lemma read_bytes_app (p t : packet) (off : Z) (n : nat) (bs : list byte) :
  read_bytes p off n = Some bs -> read_bytes (p ++ t) off n = Some bs.
Proof.
  intros Hr. pose proof (read_bytes_length _ _ _ _ Hr) as Hl.
  pose proof (read_bytes_nth _ _ _ _ Hr) as Hn.
  assert (Hb : 0 <= off /\ off + Z.of_nat n <= Z.of_nat (length p)).
  { unfold read_bytes in Hr. destruct (in_bounds p off n) eqn:E;
      [now apply in_bounds_spec | discriminate]. }
  rewrite <- Hl. apply read_bytes_is.
  - lia.
  - rewrite length_app. lia.
  - intros i Hi. rewrite nth_error_app1 by lia. apply Hn. lia.
Qed.

Lemma write_bytes_app (p t p' : packet) (off : Z) (bs : list byte) :
  write_bytes p off bs = Some p' ->
  write_bytes (p ++ t) off bs = Some (p' ++ t).
Proof.
  intros Hw. destruct (write_bytes_bounds _ _ _ _ Hw) as [H0 H1].
  rewrite (write_bytes_eq _ _ _ _ Hw).
  rewrite write_bytes_some by (rewrite ?length_app; lia). f_equal.
  rewrite firstn_app, skipn_app.
  replace (Z.to_nat off - length p)%nat with 0%nat by lia.
  replace (Z.to_nat off + length bs - length p)%nat with 0%nat by lia.
  cbn [firstn skipn]. rewrite app_nil_r, <- !app_assoc. reflexivity.
Qed.

(** X10.  The program looks at and touches the two headers only.  For a
    buffer that holds at least an Ethernet and a minimal IPv4 header,
    appending bytes changes neither the action nor the trace, and the
    appended bytes come out as they went in, after the result for the
    buffer without them. *)
Theorem payload_carried_through
    (e : endianness) (m : maps) (pkt tail : packet) (o : outcome) :
  sizeof_ethhdr + sizeof_iphdr <= Z.of_nat (length pkt) ->
  xdp_load_balancer e m pkt = Some o ->
  xdp_load_balancer e m (pkt ++ tail)
  = Some (mkOutcome (action o) (data o ++ tail) (trace o)).
Proof.
  intros Hlen. unfold xdp_load_balancer.
  rewrite !Z.gtb_ltb, length_app, Nat2Z.inj_add.
  destruct (Z.ltb_spec (Z.of_nat (length pkt)) sizeof_ethhdr) as [Hs | Hs];
    [unfold_layout; lia |].
  destruct (Z.ltb_spec (Z.of_nat (length pkt) + Z.of_nat (length tail))
              sizeof_ethhdr) as [Hs' | Hs']; [lia |].
  destruct (Z.ltb_spec (Z.of_nat (length pkt)) (sizeof_ethhdr + sizeof_iphdr))
    as [Hi | Hi]; [lia |].
  destruct (Z.ltb_spec (Z.of_nat (length pkt) + Z.of_nat (length tail))
              (sizeof_ethhdr + sizeof_iphdr)) as [Hi' | Hi']; [lia |].
  destruct (read_bytes_some pkt off_h_proto 2) as (bs & Hr & _);
    [unfold_layout; lia | unfold_layout; lia |].
  destruct (read_bytes_some pkt off_saddr 4) as (ss & Hrs & _);
    [unfold_layout; lia | unfold_layout; lia |].
  destruct (read_bytes_some pkt off_daddr 4) as (ds & Hrd & _);
    [unfold_layout; lia | unfold_layout; lia |].
  unfold load16, load32.
  rewrite (read_bytes_app _ tail _ _ _ Hr), (read_bytes_app _ tail _ _ _ Hrs),
    (read_bytes_app _ tail _ _ _ Hrd), Hr, Hrs, Hrd.
  cbn [option_map bind].
  destruct (negb (decode e bs =? htons e ETH_P_IP)).
  { intros [= <-]. reflexivity. }
  destruct (lookup_count m) as [c|]; [| intros [= <-]; reflexivity].
  destruct (c =? 0); [intros [= <-]; reflexivity |].
  destruct (lookup_backend m (hash (decode e ss) mod c)) as [b|];
    [| intros [= <-]; reflexivity].
  unfold store32, memcpy.
  destruct (write_bytes pkt off_daddr (encode e 4 (ip b))) as [pkt1|] eqn:E1;
    [| discriminate].
  rewrite (write_bytes_app _ tail _ _ _ E1). cbn [bind].
  destruct (ETH_ALEN <=? length (ether_bytes (mac b)))%nat; [| discriminate].
  destruct (write_bytes pkt1 off_h_dest (firstn ETH_ALEN (ether_bytes (mac b))))
    as [pkt2|] eqn:E2; [| discriminate].
  rewrite (write_bytes_app _ tail _ _ _ E2).
  intros [= <-]. reflexivity.
Qed.

Lemma payload_carried_through_witness :
  xdp_load_balancer LittleEndian demo_maps (demo_packet ++ [xde; xad])
  = Some (mkOutcome XDP_TX (demo_forwarded ++ [xde; xad])
            [TraceIPv4 0x0501a8c0 0x6300000a; TraceForwarding 1]).
Proof.
  apply (payload_carried_through LittleEndian demo_maps demo_packet
           [xde; xad]
           (mkOutcome XDP_TX demo_forwarded
              [TraceIPv4 0x0501a8c0 0x6300000a; TraceForwarding 1])).
  - simpl. unfold_layout. lia.
  - reflexivity.
Defined.
